(** * Multiple results per prompt: the notebook's cells

    A shallow embedding of the code cells of
    [python/notebooks/10-multiple-results-per-prompt.ipynb]: the request
    settings, the text and chat completion cells with their print loops, and
    the streaming cell with its buffered redraw loop.

    Conventions of the embedding.
    - A Python [int] is a [Z]; a Python [str] is a [string]; a Python list is
      a [list], indexed with [!!] and updated with [<[_:=_]>], an index out of
      range raising [IndexError] as in Python.
    - A reading of [time.time()] is a rational number of seconds.  The code
      subtracts two readings and compares the difference with [0.5]; the
      embedding does this arithmetic exactly.
    - What a cell writes is a list of output events; what escapes a cell is
      an exception or nothing.  A cell is a computation in the monad [io]:
      the output so far, and an exception or a value.
    - The SDK and the clock are the environment: the outcome of an awaited
      call, the batches of a stream with the clock reading taken when each
      arrives, and the way the stream ends are inputs of the cell. *)

From stdpp Require Import base list strings pretty gmap.
From Stdlib Require Import QArith Lqa Sorted.

Open Scope Z_scope.

(** ** Exceptions, output and the cell monad *)

(** The exceptions a cell can let escape: [IndexError] of a subscript out of
    range, and whatever the SDK raises (authentication, rate limit, network),
    which the notebook never inspects. *)
Inductive exn : Type :=
  | IndexError
  | SdkError (what : string).

#[global] Instance exn_eq_dec : EqDecision exn.
Proof. solve_decision. Defined.

(** [clear_output(wait=True)] and [print(line)]. *)
Inductive out_event : Type :=
  | ClearOutput
  | PrintLine (line : string).

#[global] Instance out_event_eq_dec : EqDecision out_event.
Proof. solve_decision. Defined.

Definition io (A : Type) : Type := (list out_event * (exn + A))%type.

#[global] Instance io_ret : MRet io := λ A a, ([], inr a).

#[global] Instance io_bind : MBind io := λ A B k m,
  match m with
  | (o, inl e) => (o, inl e)
  | (o, inr a) => (o ++ (k a).1, (k a).2)
  end.

Definition raise {A : Type} (e : exn) : io A := ([], inl e).
Definition emit (ev : out_event) : io () := ([ev], inr ()).
Definition lift {A : Type} (r : exn + A) : io A := ([], r).

(** What a cell printed, and what escaped it. *)
Definition output {A : Type} (m : io A) : list out_event := m.1.

(** [from services import Service]: the three back ends the notebook names. *)
Inductive Service : Type := OpenAI | AzureOpenAI | HuggingFace.

#[global] Instance Service_eq_dec : EqDecision Service.
Proof. solve_decision. Defined.

(** The f-string [f"Result {i}: {body}"]. *)
Definition result_line (i : Z) (body : string) : string :=
  "Result " +:+ pretty i +:+ ": " +:+ body.

(** ["".join(parts)] *)
Definition join (parts : list string) : string := foldr String.append "" parts.

(** ** Request settings *)

(** A keyword value: the notebook passes integers and decimal literals. *)
Inductive value : Type :=
  | VInt (n : Z)
  | VFloat (q : Q).

(** Modelled from the spec: the SDK's request-settings classes
    ([OpenAITextRequestSettings], [OpenAIChatRequestSettings],
    [AzureChatRequestSettings]) are not among the sources.  The spec says of
    them that "the settings object stores the given keyword values": the
    object keeps, under each keyword it was given, the value given for it,
    and reading an attribute returns the value kept under that name. *)
Record RequestSettings : Type := { stored : gmap string value }.

Definition store_keyword (s : gmap string value) (kv : string * value)
  : gmap string value := <[kv.1 := kv.2]> s.

Definition make_settings (keywords : list (string * value)) : RequestSettings :=
  {| stored := foldl store_keyword ∅ keywords |}.

Definition getattr (s : RequestSettings) (name : string) : option value :=
  stored s !! name.

(** The cell "set up the completion request settings for text completion". *)
Definition oai_text_request_settings : RequestSettings :=
  make_settings
    [ ("max_tokens", VInt 80);
      ("temperature", VFloat (7 # 10));
      ("top_p", VInt 1);
      ("frequency_penalty", VFloat (5 # 10));
      ("presence_penalty", VFloat (5 # 10));
      ("number_of_responses", VInt 3) ].

(** ** The completion cells *)

Section Cells.
(** [R] is what the text services return per completion and [E] what a
    chat result holds at each position; the f-strings format them. *)
Context {R E : Type} (format_R : R → string) (format_E : E → string).

(** [for result in results: print(f"Result {i}: {result}"); i += 1] *)
Fixpoint print_results (i : Z) (results : list R) : io () :=
  match results with
  | [] => mret ()
  | result :: rest =>
      emit (PrintLine (result_line i (format_R result)));;
      print_results (i + 1) rest
  end.

(** [result[0]] *)
Definition getitem0 (result : list E) : exn + E :=
  match result with
  | [] => inl IndexError
  | x :: _ => inr x
  end.

(** [for result in results: print(f"Result {i}: {result[0]}"); i += 1] *)
Fixpoint print_first_items (i : Z) (results : list (list E)) : io () :=
  match results with
  | [] => mret ()
  | result :: rest =>
      x ← lift (getitem0 result);
      emit (PrintLine (result_line i (format_E x)));;
      print_first_items (i + 1) rest
  end.

(** [if selectedService == service:
       results = await text_service.complete_async(...)
       i = 1
       for result in results: ...] *)
Definition text_completion_cell (service selectedService : Service)
    (call : exn + list R) : io () :=
  if decide (selectedService = service) then
    results ← lift call;
    print_results 1 results
  else mret ().

(** [if selectedService == service:
       results = await chat_service.complete_chat_async(...)
       i = 0
       for result in results: ...] *)
Definition chat_completion_cell (service selectedService : Service)
    (call : exn + list (list E)) : io () :=
  if decide (selectedService = service) then
    results ← lift call;
    print_first_items 0 results
  else mret ().
End Cells.

(** [if selectedService == Service.HuggingFace:
       results = await hf_text_service.complete_async(...)
       print("".join(results))] *)
Definition hugging_face_cell (selectedService : Service)
    (call : exn + list string) : io () :=
  if decide (selectedService = HuggingFace) then
    results ← lift call;
    emit (PrintLine (join results))
  else mret ().

(** ** The streaming cell *)

(** [clear_interval = 0.5  # seconds] *)
Definition clear_interval : Q := 1 # 2.

(** [a > b] on clock readings. *)
Definition Qgtb (a b : Q) : bool := negb (Qle_bool a b).

(** The variables the loop updates. *)
Record loop_state : Type := {
  texts : list string;
  last_clear_time : Q
}.

(** A batch of the stream with the reading of [time.time()] that the loop
    takes when the batch arrives. *)
Definition arrival : Type := (Q * list string)%type.

(** [texts = [""] * number_of_responses; last_clear_time = time.time()] *)
Definition initial_state (number_of_responses : Z) (now : Q) : loop_state :=
  {| texts := replicate (Z.to_nat number_of_responses) "";
     last_clear_time := now |}.

(** [for idx, result in enumerate(results):
       if idx < number_of_responses:
           texts[idx] += result]
    from position [idx] of the enumeration on. *)
Fixpoint update_texts (number_of_responses : Z) (idx : nat)
    (results : list string) (texts : list string) : exn + list string :=
  match results with
  | [] => inr texts
  | result :: rest =>
      if Z.of_nat idx <? number_of_responses then
        match texts !! idx with
        | Some text =>
            update_texts number_of_responses (S idx) rest
              (<[idx := text +:+ result]> texts)
        | None => inl IndexError
        end
      else update_texts number_of_responses (S idx) rest texts
  end.

(** [for idx, text in enumerate(texts): print(f"Result {idx + 1}: {text}")] *)
Fixpoint print_texts (idx : nat) (texts : list string) : io () :=
  match texts with
  | [] => mret ()
  | text :: rest =>
      emit (PrintLine (result_line (Z.of_nat idx + 1) text));;
      print_texts (S idx) rest
  end.

(** One iteration of [async for results in stream]. *)
Definition loop_body (number_of_responses : Z) (st : loop_state)
    (current_time : Q) (results : list string) : io loop_state :=
  texts' ← lift (update_texts number_of_responses 0 results (texts st));
  if Qgtb (current_time - last_clear_time st) clear_interval then
    emit ClearOutput;;
    print_texts 0 texts';;
    mret {| texts := texts'; last_clear_time := current_time |}
  else
    mret {| texts := texts'; last_clear_time := last_clear_time st |}.

(** The iterations over the batches that arrive. *)
Fixpoint stream_loop (number_of_responses : Z) (st : loop_state)
    (stream : list arrival) : io loop_state :=
  match stream with
  | [] => mret st
  | (current_time, results) :: rest =>
      st' ← loop_body number_of_responses st current_time results;
      stream_loop number_of_responses st' rest
  end.

Definition separator : string := "----------------------------------------".

(** The streaming cell.  [number_of_responses] is the attribute read from the
    settings, [now] the clock reading before the loop, [stream] the batches
    with their arrival readings, and [stream_end] the exception the stream
    raises after them, if it does not simply end. *)
Definition streaming_cell (selectedService : Service)
    (number_of_responses : Z) (now : Q) (stream : list arrival)
    (stream_end : option exn) : io () :=
  if decide (selectedService = OpenAI) then
    st ← stream_loop number_of_responses
           (initial_state number_of_responses now) stream;
    match stream_end with
    | Some e => raise e
    | None => emit (PrintLine separator)
    end
  else mret ().

(** ** Observations on a run of the loop *)

(** What each iteration printed, with the clock reading of the iteration. *)
Fixpoint loop_trace (number_of_responses : Z) (st : loop_state)
    (stream : list arrival) : list (Q * list out_event) :=
  match stream with
  | [] => []
  | (current_time, results) :: rest =>
      let r := loop_body number_of_responses st current_time results in
      (current_time, r.1) ::
      match r.2 with
      | inr st' => loop_trace number_of_responses st' rest
      | inl _ => []
      end
  end.

(** The clock readings of the iterations that cleared the screen. *)
Definition clear_times (trace : list (Q * list out_event)) : list Q :=
  (filter (λ it, ClearOutput ∈ it.2) trace).*1.

(** ** The names the cells bind and read *)

(** A cell as far as global names go: from the set of names bound so far to
    the set bound when the cell stops, with the name whose read failed when
    the cell stops on a [NameError].  Imports are taken to succeed and SDK
    calls to return; a [for] loop is followed through one turn of its body. *)
Definition nb (A : Type) : Type := gset string → gset string * (string + A).

#[global] Instance nb_ret : MRet nb := λ A a ns, (ns, inr a).

#[global] Instance nb_bind : MBind nb := λ A B k m ns,
  match m ns with
  | (ns', inl name) => (ns', inl name)
  | (ns', inr a) => k a ns'
  end.

(** An assignment, import or loop target binds names. *)
Definition binds (names : list string) : nb () :=
  λ ns, (list_to_set names ∪ ns, inr ()).

(** Evaluating a name that is not bound raises [NameError]. *)
Definition reads (name : string) : nb () :=
  λ ns, (ns, if decide (name ∈ ns) then inr () else inl name).

(** [if test: body] *)
Definition when (test : bool) (body : nb ()) : nb () :=
  if test then body else mret ().

(** [selectedService == Service.<service>] *)
Definition selected_is (selectedService service : Service) : nb bool :=
  reads "selectedService";; reads "Service";;
  mret (bool_decide (selectedService = service)).

(** [selectedService == Service.<s1> or selectedService == Service.<s2>] *)
Definition selected_is_either (selectedService s1 s2 : Service) : nb bool :=
  first ← selected_is selectedService s1;
  if first : bool then mret true else selected_is selectedService s2.

(** [from services import Service; selectedService = Service.<...>] *)
Definition select_cell : nb () :=
  binds ["Service"];; reads "Service";; binds ["selectedService"].

(** The cell of the SDK imports. *)
Definition import_cell (selectedService : Service) : nb () :=
  binds ["sk"];;
  either ← selected_is_either selectedService OpenAI AzureOpenAI;
  when either
    (binds ["OpenAITextRequestSettings"; "OpenAIChatRequestSettings"];;
     binds ["AzureChatRequestSettings"];;
     binds ["AzureTextCompletion"; "AzureChatCompletion";
            "OpenAITextCompletion"; "OpenAIChatCompletion"]);;
  hf ← selected_is selectedService HuggingFace;
  when hf (binds ["HuggingFaceTextCompletion"]).

(** The cell that configures the services. *)
Definition services_cell (selectedService : Service) : nb () :=
  reads "sk";; binds ["kernel"];;
  azure ← selected_is selectedService AzureOpenAI;
  when azure
    (reads "sk";; binds ["deployment"; "api_key"; "endpoint"];;
     reads "AzureTextCompletion";; reads "endpoint";; reads "api_key";;
     binds ["azure_text_service"];;
     reads "AzureChatCompletion";; reads "endpoint";; reads "api_key";;
     binds ["azure_chat_service"]);;
  openai ← selected_is selectedService OpenAI;
  when openai
    (reads "sk";; binds ["api_key"; "org_id"];;
     reads "OpenAITextCompletion";; reads "api_key";; reads "org_id";;
     binds ["oai_text_service"];;
     reads "OpenAIChatCompletion";; reads "api_key";; reads "org_id";;
     binds ["oai_chat_service"]);;
  hf ← selected_is selectedService HuggingFace;
  when hf (reads "HuggingFaceTextCompletion";; binds ["hf_text_service"]).

(** [name = Class(...)] for a settings class, outside any [if]. *)
Definition settings_cell (class name : string) : nb () :=
  reads class;; binds [name].

(** [results = await ...; i = ...; for result in results: print(...); i += 1] *)
Definition print_loop_names : nb () :=
  binds ["results"];; binds ["i"];;
  reads "results";; binds ["result"];;
  reads "i";; reads "result";;
  reads "i";; binds ["i"].

(** A text-completion cell with a print loop. *)
Definition text_cell_names (selectedService service : Service)
    (text_service : string) : nb () :=
  chosen ← selected_is selectedService service;
  when chosen
    (binds ["prompt"];;
     reads text_service;; reads "prompt";; reads "oai_text_request_settings";;
     print_loop_names).

(** The two Hugging Face cells. *)
Definition hf_settings_cell (selectedService : Service) : nb () :=
  chosen ← selected_is selectedService HuggingFace;
  when chosen
    (binds ["HuggingFaceRequestSettings"];;
     reads "HuggingFaceRequestSettings";; binds ["hf_request_settings"]).

Definition hf_text_cell_names (selectedService : Service) : nb () :=
  chosen ← selected_is selectedService HuggingFace;
  when chosen
    (binds ["prompt"];;
     reads "hf_text_service";; reads "prompt";; reads "hf_request_settings";;
     binds ["results"];; reads "results").

(** A chat-completion cell. *)
Definition chat_cell_names (selectedService service : Service)
    (chat_service settings : string) : nb () :=
  chosen ← selected_is selectedService service;
  when chosen
    (binds ["role"];; binds ["content"];;
     reads "role";; reads "content";; binds ["message"];;
     reads chat_service;; reads "message";; reads settings;;
     print_loop_names).

(** The streaming cell. *)
Definition streaming_cell_names (selectedService : Service) : nb () :=
  chosen ← selected_is selectedService OpenAI;
  when chosen
    (binds ["os"];; binds ["clear_output"];; binds ["time"];;
     reads "os";; binds ["clear_command"];;
     binds ["prompt"];;
     reads "oai_text_service";; reads "prompt";;
     reads "oai_text_request_settings";; binds ["stream"];;
     reads "oai_text_request_settings";; binds ["number_of_responses"];;
     reads "number_of_responses";; binds ["texts"];;
     reads "time";; binds ["last_clear_time"];;
     binds ["clear_interval"];;
     reads "stream";; binds ["results"];;
     reads "time";; binds ["current_time"];;
     reads "results";; binds ["idx"; "result"];;
     reads "idx";; reads "number_of_responses";;
     reads "texts";; reads "idx";; reads "result";;
     reads "current_time";; reads "last_clear_time";; reads "clear_interval";;
     reads "clear_output";;
     reads "texts";; binds ["idx"; "text"];;
     reads "idx";; reads "text";;
     reads "current_time";; binds ["last_clear_time"]).

(** The code cells in the order of the notebook, after the cell that
    installs the package. *)
Definition notebook_cells (selectedService : Service) : list (nb ()) :=
  [ select_cell;
    import_cell selectedService;
    services_cell selectedService;
    settings_cell "OpenAITextRequestSettings" "oai_text_request_settings";
    text_cell_names selectedService OpenAI "oai_text_service";
    text_cell_names selectedService AzureOpenAI "azure_text_service";
    hf_settings_cell selectedService;
    hf_text_cell_names selectedService;
    settings_cell "OpenAIChatRequestSettings" "oai_chat_request_settings";
    chat_cell_names selectedService OpenAI
      "oai_chat_service" "oai_chat_request_settings";
    settings_cell "AzureChatRequestSettings" "az_oai_request_settings";
    chat_cell_names selectedService AzureOpenAI
      "azure_chat_service" "az_oai_request_settings";
    streaming_cell_names selectedService ].

(** Running cells one after the other, each in the names the earlier ones
    left, also after a cell that failed: the [NameError] of each cell. *)
Fixpoint run_cells (cells : list (nb ())) (ns : gset string)
  : list (option string) :=
  match cells with
  | [] => []
  | cell :: rest =>
      let r := cell ns in
      match r.2 with inl name => Some name | inr _ => None end ::
      run_cells rest r.1
  end.

(** ** The properties in the words of the specification *)

(** A clear-and-reprint of the accumulated strings: the screen is cleared and
    every string is printed on a line of its own, labelled from 1. *)
Definition redraw (texts : list string) : list out_event :=
  ClearOutput ::
  imap (λ k text, PrintLine (result_line (Z.of_nat k + 1) text)) texts.

(** The concatenation, in arrival order, of the [i]-th chunk of every batch
    that has more than [i] chunks. *)
Definition slot_text (i : nat) (stream : list arrival) : string :=
  join (omap (λ a : arrival, a.2 !! i) stream).

(** The chunk that a batch, enumerated from [idx], brings to slot [i]. *)
Definition chunk_for (idx : nat) (results : list string) (i : nat) : string :=
  if decide (idx ≤ i)%nat then default "" (results !! (i - idx)%nat) else "".

(** Successive clears, the first one counted from [since], are more than
    [clear_interval] apart. *)
Fixpoint spaced (since : Q) (clears : list Q) : Prop :=
  match clears with
  | [] => True
  | c :: rest => (clear_interval < c - since)%Q ∧ spaced c rest
  end.



(** The accumulator that the batches of [stream] build up: slot [i] holds
    the chunks that arrived for it, for every [i] below [N]. *)
Definition snapshot (N : Z) (stream : list arrival) : list string :=
  (λ i, slot_text i stream) <$> seq 0 (Z.to_nat N).

(** The frames a run shows, from the arrival readings alone: a batch that
    arrives more than [clear_interval] after the last clear (after [since])
    gives one frame, the snapshot of the stream up to and including that
    batch; any other batch gives none.  [earlier] holds the batches already
    received. *)
Fixpoint shown_frames (N : Z) (since : Q) (earlier later : list arrival)
  : list (list string) :=
  match later with
  | [] => []
  | a :: rest =>
      if Qgtb (a.1 - since) clear_interval then
        snapshot N (earlier ++ [a]) ::
        shown_frames N a.1 (earlier ++ [a]) rest
      else shown_frames N since (earlier ++ [a]) rest
  end.


(** ** Sample streams *)

(** Three batches, 0.3, 0.6 and 0.9 seconds after the loop starts; the
    second one has a chunk more than there are slots. *)
Definition example_stream : list arrival :=
  [ ((3 # 10)%Q, ["a"; "b"; "c"]);
    ((6 # 10)%Q, ["d"; "e"; "f"; "g"]);
    ((9 # 10)%Q, ["h"]) ].

(** Two batches, 0.6 and 3 seconds after the loop starts. *)
Definition sparse_stream : list arrival :=
  [ ((6 # 10)%Q, ["a"; "b"; "c"]);
    (3%Q, ["d"; "e"; "f"]) ].

(** * Properties *)

(** ** Strings *)

Lemma append_cons (c : Ascii.ascii) (s t : string) :
  String c s +:+ t = String c (s +:+ t).
Proof. reflexivity. Qed.

Lemma append_empty_r (s : string) : s +:+ "" = s.
Proof.
  induction s as [|c s IH]; [done|].
  by rewrite append_cons, IH.
Qed.

Lemma append_assoc (s1 s2 s3 : string) :
  (s1 +:+ s2) +:+ s3 = s1 +:+ (s2 +:+ s3).
Proof.
  induction s1 as [|c s1 IH]; [done|].
  by rewrite !append_cons, IH.
Qed.

Lemma join_app (l1 l2 : list string) : join (l1 ++ l2) = join l1 +:+ join l2.
Proof.
  induction l1 as [|s l1 IH]; simpl; [done|].
  by rewrite IH, append_assoc.
Qed.

(** ** The comparison of clock readings *)

Lemma Qgtb_true (a b : Q) : Qgtb a b = true ↔ (b < a)%Q.
Proof.
  unfold Qgtb. rewrite negb_true_iff. split.
  - intros Hle. apply Qnot_le_lt. intros H%Qle_bool_iff. congruence.
  - intros Hlt. destruct (Qle_bool a b) eqn:Hle; [|done].
    apply Qle_bool_iff in Hle. by apply Qlt_not_le in Hlt.
Qed.

Lemma Qgtb_false (a b : Q) : Qgtb a b = false ↔ (a <= b)%Q.
Proof.
  unfold Qgtb. rewrite negb_false_iff. apply Qle_bool_iff.
Qed.

(** ** The cell monad *)

Lemma io_bind_ret {A B : Type} (a : A) (k : A → io B) : (mret a ≫= k) = k a.
Proof. unfold mret, io_ret, mbind, io_bind. simpl. by destruct (k a). Qed.

Lemma io_bind_raise {A B : Type} (o : list out_event) (e : exn) (k : A → io B) :
  ((o, inl e) : io A) ≫= k = (o, inl e).
Proof. done. Qed.

Lemma io_bind_value {A B : Type} (o : list out_event) (a : A) (k : A → io B) :
  ((o, inr a) : io A) ≫= k = (o ++ (k a).1, (k a).2).
Proof. done. Qed.

(** ** The update of the accumulator *)

Lemma chunk_for_nil idx i : chunk_for idx [] i = "".
Proof. unfold chunk_for. by case_decide. Qed.

Lemma update_texts_lookup (N : Z) (results : list string) :
  ∀ (idx : nat) (texts : list string),
    length texts = Z.to_nat N →
    ∃ texts',
      update_texts N idx results texts = inr texts' ∧
      length texts' = length texts ∧
      ∀ i : nat, texts' !! i = (λ t, t +:+ chunk_for idx results i) <$> texts !! i.
Proof.
  induction results as [|result rest IH]; intros idx texts Hlen; simpl.
  - exists texts. split_and!; [done..|].
    intros i. rewrite chunk_for_nil. destruct (texts !! i) eqn:E; simpl; [|done].
    by rewrite append_empty_r.
  - destruct (Z.ltb_spec (Z.of_nat idx) N) as [Hlt|Hge].
    + assert (idx < length texts)%nat as Hidx by lia.
      destruct (lookup_lt_is_Some_2 texts idx Hidx) as [text Htext].
      rewrite Htext.
      destruct (IH (S idx) (<[idx := text +:+ result]> texts)) as (texts' & Hrun & Hl & Hlook).
      { by rewrite length_insert. }
      exists texts'. split_and!; [done | by rewrite Hl, length_insert |].
      intros i. rewrite Hlook. destruct (decide (i = idx)) as [->|Hne].
      * rewrite list_lookup_insert_eq by done. rewrite Htext. simpl. f_equal.
        unfold chunk_for. rewrite decide_False by lia. rewrite decide_True by lia.
        rewrite Nat.sub_diag. simpl. by rewrite append_empty_r.
      * rewrite list_lookup_insert_ne by done.
        destruct (texts !! i) eqn:E; simpl; [|done]. do 2 f_equal.
        unfold chunk_for. destruct (decide (S idx ≤ i)%nat).
        -- rewrite decide_True by lia.
           replace (i - idx)%nat with (S (i - S idx)) by lia. done.
        -- rewrite decide_False by lia. done.
    + destruct (IH (S idx) texts Hlen) as (texts' & Hrun & Hl & Hlook).
      exists texts'. split_and!; [done..|].
      intros i. rewrite Hlook.
      destruct (texts !! i) eqn:E; simpl; [|done].
      apply lookup_lt_Some in E.
      unfold chunk_for. rewrite decide_False by lia. rewrite decide_False by lia. done.
Qed.

Lemma io_bind_assoc {A B C : Type} (m : io A) (f : A → io B) (g : B → io C) :
  (m ≫= f) ≫= g = m ≫= (λ a, f a ≫= g).
Proof.
  destruct m as [o [e|a]]; [done|].
  unfold mbind, io_bind. destruct (f a) as [o1 [e1|b]]; simpl; [done|].
  by rewrite app_assoc.
Qed.

Lemma update_texts_app (N : Z) (pre post : list string) :
  ∀ (idx : nat) (texts : list string),
    update_texts N idx (pre ++ post) texts =
    match update_texts N idx pre texts with
    | inl e => inl e
    | inr texts' => update_texts N (idx + length pre) post texts'
    end.
Proof.
  induction pre as [|result pre IH]; intros idx texts; simpl.
  - by rewrite Nat.add_0_r.
  - replace (idx + S (length pre))%nat with (S idx + length pre)%nat by lia.
    destruct (Z.of_nat idx <? N); [|apply IH].
    destruct (texts !! idx); [apply IH | done].
Qed.

(** ** One iteration of the loop *)

Lemma print_texts_lines (texts : list string) :
  ∀ idx : nat,
    print_texts idx texts =
    (imap (λ k text, PrintLine (result_line (Z.of_nat (idx + k) + 1) text)) texts,
     inr ()).
Proof.
  induction texts as [|text rest IH]; intros idx; simpl; [done|].
  rewrite IH. unfold emit, mbind, io_bind. simpl.
  rewrite Nat.add_0_r. do 2 f_equal.
  apply imap_ext. intros k x _. simpl. do 3 f_equal. lia.
Qed.

Lemma loop_body_redraw (N : Z) (st : loop_state) (t : Q)
    (results texts' : list string) :
  update_texts N 0 results (texts st) = inr texts' →
  (clear_interval < t - last_clear_time st)%Q →
  loop_body N st t results =
  (redraw texts', inr {| texts := texts'; last_clear_time := t |}).
Proof.
  intros Hupd Hlt. unfold loop_body. rewrite Hupd.
  apply Qgtb_true in Hlt. unfold lift. rewrite io_bind_value. simpl.
  rewrite Hlt. rewrite print_texts_lines. unfold emit, mbind, io_bind. simpl.
  by rewrite app_nil_r.
Qed.

Lemma loop_body_quiet (N : Z) (st : loop_state) (t : Q)
    (results texts' : list string) :
  update_texts N 0 results (texts st) = inr texts' →
  (t - last_clear_time st <= clear_interval)%Q →
  loop_body N st t results =
  ([], inr {| texts := texts'; last_clear_time := last_clear_time st |}).
Proof.
  intros Hupd Hle. unfold loop_body. rewrite Hupd.
  apply Qgtb_false in Hle. unfold lift. rewrite io_bind_value. simpl.
  by rewrite Hle.
Qed.

(** Either the interval has elapsed and the iteration redraws, or it has not
    and the iteration is silent; in both cases the accumulator is updated. *)
Lemma loop_body_cases (N : Z) (st : loop_state) (t : Q) (results : list string) :
  length (texts st) = Z.to_nat N →
  ∃ texts',
    update_texts N 0 results (texts st) = inr texts' ∧
    length texts' = Z.to_nat N ∧
    (∀ i : nat,
       texts' !! i = (λ s, s +:+ default "" (results !! i)) <$> texts st !! i) ∧
    (((clear_interval < t - last_clear_time st)%Q ∧
      loop_body N st t results =
      (redraw texts', inr {| texts := texts'; last_clear_time := t |})) ∨
     ((t - last_clear_time st <= clear_interval)%Q ∧
      loop_body N st t results =
      ([], inr {| texts := texts'; last_clear_time := last_clear_time st |}))).
Proof.
  intros Hlen.
  destruct (update_texts_lookup N results 0 (texts st) Hlen)
    as (texts' & Hupd & Hl & Hlook).
  exists texts'. split_and!; [done | congruence | |].
  - intros i. rewrite Hlook. unfold chunk_for.
    rewrite decide_True by lia. by rewrite Nat.sub_0_r.
  - destruct (Qlt_le_dec clear_interval (t - last_clear_time st)) as [Hlt|Hle].
    + left. split; [done|]. by apply loop_body_redraw.
    + right. split; [done|]. by apply loop_body_quiet.
Qed.

(** ** The whole loop *)

Lemma stream_loop_app (N : Z) (s1 s2 : list arrival) :
  ∀ st : loop_state,
    stream_loop N st (s1 ++ s2) =
    stream_loop N st s1 ≫= λ st', stream_loop N st' s2.
Proof.
  induction s1 as [|[t results] s1 IH]; intros st.
  - symmetry. apply (io_bind_ret st).
  - simpl. destruct (loop_body N st t results) as [o [e|st']]; [done|].
    rewrite !io_bind_value, IH.
    destruct (stream_loop N st' s1) as [o1 [e1|st1]]; [done|].
    rewrite !io_bind_value. simpl. by rewrite app_assoc.
Qed.

(** The loop never raises: it ends in a state whose accumulator has the
    length it started with, every slot extended by its chunks. *)
Lemma stream_loop_total (N : Z) (stream : list arrival) :
  ∀ st : loop_state,
    length (texts st) = Z.to_nat N →
    ∃ (o : list out_event) (st' : loop_state),
      stream_loop N st stream = (o, inr st') ∧
      length (texts st') = Z.to_nat N ∧
      ∀ i : nat,
        texts st' !! i = (λ s, s +:+ slot_text i stream) <$> texts st !! i.
Proof.
  induction stream as [|[t results] rest IH]; intros st Hlen; simpl.
  - exists [], st. split_and!; [done..|].
    intros i. unfold slot_text. simpl.
    destruct (texts st !! i); simpl; [|done]. by rewrite append_empty_r.
  - destruct (loop_body_cases N st t results Hlen)
      as (texts' & _ & Hl & Hlook & [[_ Hrun]|[_ Hrun]]); rewrite Hrun.
    all: match goal with |- context [inr ?s] => destruct (IH s Hl) as (o & st' & Hrest & Hl' & Hlook') end.
    all: rewrite io_bind_value, Hrest; simpl.
    all: eexists _, st'; split_and!; [done..|].
    all: intros i; rewrite Hlook'; simpl; rewrite Hlook.
    all: destruct (texts st !! i); simpl; [|done].
    all: f_equal; rewrite append_assoc; f_equal.
    all: unfold slot_text; simpl; by destruct (results !! i).
Qed.

Lemma initial_state_length (N : Z) (now : Q) :
  length (texts (initial_state N now)) = Z.to_nat N.
Proof. simpl. apply length_replicate. Qed.

(** ** The trace of a run *)


Lemma redraw_clears (texts : list string) : ClearOutput ∈ redraw texts.
Proof. unfold redraw. apply list_elem_of_here. Qed.

Lemma clear_times_cleared (t : Q) (o : list out_event)
    (trace : list (Q * list out_event)) :
  ClearOutput ∈ o → clear_times ((t, o) :: trace) = t :: clear_times trace.
Proof. intros Ho. unfold clear_times. by rewrite filter_cons_True. Qed.

Lemma clear_times_silent (t : Q) (trace : list (Q * list out_event)) :
  clear_times ((t, []) :: trace) = clear_times trace.
Proof.
  unfold clear_times. rewrite filter_cons_False; [done|].
  simpl. apply not_elem_of_nil.
Qed.

Lemma loop_trace_cons (N : Z) (st : loop_state) (t : Q)
    (results : list string) (rest : list arrival) :
  loop_trace N st ((t, results) :: rest) =
  (t, (loop_body N st t results).1) ::
  match (loop_body N st t results).2 with
  | inr st' => loop_trace N st' rest
  | inl _ => []
  end.
Proof. done. Qed.

(** Successive clears of a run are more than the interval apart. *)
Lemma loop_trace_spaced (N : Z) (stream : list arrival) :
  ∀ st : loop_state,
    length (texts st) = Z.to_nat N →
    spaced (last_clear_time st) (clear_times (loop_trace N st stream)).
Proof.
  induction stream as [|[t results] rest IH]; intros st Hlen; [done|].
  rewrite loop_trace_cons.
  destruct (loop_body_cases N st t results Hlen)
    as (texts' & _ & Hl & _ & [[Hlt Hrun]|[Hle Hrun]]); rewrite Hrun; cbn [fst snd].
  - rewrite clear_times_cleared by apply redraw_clears.
    split; [done|].
    apply (IH {| texts := texts'; last_clear_time := t |} Hl).
  - rewrite clear_times_silent.
    apply (IH {| texts := texts'; last_clear_time := last_clear_time st |} Hl).
Qed.


(** ** The streaming loop: the redraw throttle *)



(** ** The streaming loop: the accumulator *)

(** C2.  For every finite stream of batches the loop terminates, and then
    every slot [i < number_of_responses] of [texts] holds the concatenation,
    in arrival order, of the [i]-th chunk of every batch that had more than
    [i] chunks.  Each inbound chunk is appended to the slot given by its
    position in its batch: the iteration that receives a batch with chunk
    [chunk] at position [i] turns slot [i] from [text] into [text + chunk]. *)
Theorem texts_concatenate_slot_chunks (N : Z) (now : Q) (stream : list arrival) :
  (∃ (o : list out_event) (st : loop_state),
     stream_loop N (initial_state N now) stream = (o, inr st) ∧
     ∀ i : nat, Z.of_nat i < N → texts st !! i = Some (slot_text i stream)) ∧
  (∀ (earlier later : list arrival) (t : Q) (results : list string)
     (i : nat) (chunk : string),
     stream = earlier ++ (t, results) :: later →
     Z.of_nat i < N →
     results !! i = Some chunk →
     ∃ (o1 o2 : list out_event) (st1 st2 : loop_state) (text : string),
       stream_loop N (initial_state N now) earlier = (o1, inr st1) ∧
       loop_body N st1 t results = (o2, inr st2) ∧
       texts st1 !! i = Some text ∧
       texts st2 !! i = Some (text +:+ chunk)).
Proof.
  pose proof (initial_state_length N now) as Hinit. split.
  - destruct (stream_loop_total N stream _ Hinit) as (o & st & Hrun & _ & Hlook).
    exists o, st. split; [done|]. intros i Hi.
    rewrite Hlook. simpl. rewrite lookup_replicate_2 by lia. done.
  - intros earlier later t results i chunk _ Hi Hchunk.
    destruct (stream_loop_total N earlier _ Hinit) as (o1 & st1 & Hrun & Hlen & _).
    destruct (loop_body_cases N st1 t results Hlen)
      as (texts' & _ & _ & Hlook & Hcases).
    destruct (lookup_lt_is_Some_2 (texts st1) i) as [text Htext]; [lia|].
    assert (texts' !! i = Some (text +:+ chunk)) as Hnew.
    { by rewrite Hlook, Htext, Hchunk. }
    destruct Hcases as [[_ Hbody]|[_ Hbody]];
      eexists o1, _, st1, _, text; (split_and!; [done | exact Hbody | done | done]).
Qed.

Lemma texts_concatenate_slot_chunks_witness :
  (∃ (o : list out_event) (st : loop_state),
     stream_loop 3 (initial_state 3 0) example_stream = (o, inr st) ∧
     ∀ i : nat, Z.of_nat i < 3 → texts st !! i = Some (slot_text i example_stream)) ∧
  ∃ (o1 o2 : list out_event) (st1 st2 : loop_state) (text : string),
    stream_loop 3 (initial_state 3 0) [((3 # 10)%Q, ["a"; "b"; "c"])] = (o1, inr st1) ∧
    loop_body 3 st1 (6 # 10) ["d"; "e"; "f"; "g"] = (o2, inr st2) ∧
    texts st1 !! 1%nat = Some text ∧
    texts st2 !! 1%nat = Some (text +:+ "e").
Proof.
  destruct (texts_concatenate_slot_chunks 3 0 example_stream) as [Hall Heach].
  split; [exact Hall|].
  apply (Heach [((3 # 10)%Q, ["a"; "b"; "c"])] [((9 # 10)%Q, ["h"])]
           (6 # 10)%Q ["d"; "e"; "f"; "g"] 1%nat "e");
    [reflexivity | lia | reflexivity].
Defined.

(** C3.  The accumulator starts as a list of exactly [N] empty strings, [N]
    being [number_of_responses], and every iteration keeps its length: after
    any number of batches, and after any number of chunks of the next batch,
    [texts] is a list of exactly [N] strings. *)
Theorem texts_length_invariant (N : Z) (now : Q) :
  0 ≤ N →
  texts (initial_state N now) = replicate (Z.to_nat N) "" ∧
  Z.of_nat (length (texts (initial_state N now))) = N ∧
  ∀ stream : list arrival,
    ∃ (o : list out_event) (st : loop_state),
      stream_loop N (initial_state N now) stream = (o, inr st) ∧
      Z.of_nat (length (texts st)) = N ∧
      ∀ chunks : list string,
        ∃ texts' : list string,
          update_texts N 0 chunks (texts st) = inr texts' ∧
          Z.of_nat (length texts') = N.
Proof.
  intros HN. pose proof (initial_state_length N now) as Hinit.
  split_and!; [done | lia |].
  intros stream.
  destruct (stream_loop_total N stream _ Hinit) as (o & st & Hrun & Hlen & _).
  exists o, st. split_and!; [done | lia |].
  intros chunks.
  destruct (update_texts_lookup N chunks 0 (texts st) Hlen) as (texts' & Hupd & Hl & _).
  exists texts'. split; [done | lia].
Qed.

Lemma texts_length_invariant_witness :
  texts (initial_state 3 0) = replicate (Z.to_nat 3) "" ∧
  Z.of_nat (length (texts (initial_state 3 0))) = 3 ∧
  ∀ stream : list arrival,
    ∃ (o : list out_event) (st : loop_state),
      stream_loop 3 (initial_state 3 0) stream = (o, inr st) ∧
      Z.of_nat (length (texts st)) = 3 ∧
      ∀ chunks : list string,
        ∃ texts' : list string,
          update_texts 3 0 chunks (texts st) = inr texts' ∧
          Z.of_nat (length texts') = 3.
Proof. apply (texts_length_invariant 3 0). lia. Defined.

(** C9.  Whatever the length of a batch, also beyond [number_of_responses],
    the update step never indexes [texts] out of range (it raises no
    [IndexError]) and drops every chunk whose index is [number_of_responses]
    or more: the batch cut after its first [number_of_responses] chunks
    leaves the same accumulator. *)
Theorem extra_chunks_discarded (N : Z) (results texts : list string) :
  length texts = Z.to_nat N →
  ∃ texts' : list string,
    update_texts N 0 results texts = inr texts' ∧
    update_texts N 0 (take (Z.to_nat N) results) texts = inr texts' ∧
    length texts' = length texts ∧
    ∀ i : nat,
      texts' !! i = (λ s, s +:+ default "" (results !! i)) <$> texts !! i.
Proof.
  intros Hlen.
  destruct (update_texts_lookup N results 0 texts Hlen) as (texts1 & Hupd1 & Hl1 & Hlook1).
  destruct (update_texts_lookup N (take (Z.to_nat N) results) 0 texts Hlen)
    as (texts2 & Hupd2 & Hl2 & Hlook2).
  assert (∀ i, chunk_for 0 results i = default "" (results !! i)) as Hchunk.
  { intros i. unfold chunk_for. rewrite decide_True by lia. by rewrite Nat.sub_0_r. }
  assert (texts2 = texts1) as ->.
  { apply list_eq. intros i. rewrite Hlook1, Hlook2.
    destruct (texts !! i) eqn:E; simpl; [|done].
    apply lookup_lt_Some in E. do 2 f_equal.
    unfold chunk_for. rewrite decide_True by lia.
    rewrite lookup_take_lt by lia. done. }
  exists texts1. split_and!; [done..|].
  intros i. by rewrite Hlook1, Hchunk.
Qed.

Lemma extra_chunks_discarded_witness :
  ∃ texts' : list string,
    update_texts 2 0 ["x"; "y"; "z"; "w"] ["a"; "b"] = inr texts' ∧
    update_texts 2 0 (take (Z.to_nat 2) ["x"; "y"; "z"; "w"]) ["a"; "b"] = inr texts' ∧
    length texts' = length ["a"; "b"] ∧
    ∀ i : nat,
      texts' !! i =
      (λ s, s +:+ default "" (["x"; "y"; "z"; "w"] !! i)) <$> ["a"; "b"] !! i.
Proof. apply (extra_chunks_discarded 2 ["x"; "y"; "z"; "w"] ["a"; "b"]). reflexivity. Defined.

(** ** The streaming cell: what is shown *)

(** C8.  When the final batch of a stream arrives at most 0.5 seconds after
    the most recent clear, the loop ends without a clear-and-reprint for it:
    the batch is accumulated, nothing is printed for it, and all the cell
    prints after what the earlier batches showed is the dashed separator.
    The text accumulated since the last clear is then never displayed. *)
Theorem final_batch_not_displayed (N : Z) (now : Q) (earlier : list arrival)
    (o : list out_event) (st : loop_state) (t : Q) (results : list string) :
  stream_loop N (initial_state N now) earlier = (o, inr st) →
  (t - last_clear_time st <= 1 # 2)%Q →
  ∃ texts' : list string,
    update_texts N 0 results (texts st) = inr texts' ∧
    (∀ i : nat,
       texts' !! i = (λ s, s +:+ default "" (results !! i)) <$> texts st !! i) ∧
    stream_loop N (initial_state N now) (earlier ++ [(t, results)]) =
      (o, inr {| texts := texts'; last_clear_time := last_clear_time st |}) ∧
    streaming_cell OpenAI N now (earlier ++ [(t, results)]) None =
      (o ++ [PrintLine separator], inr ()).
Proof.
  intros Hrun Hle.
  pose proof (initial_state_length N now) as Hinit.
  destruct (stream_loop_total N earlier _ Hinit) as (o' & st' & Hrun' & Hlen & _).
  rewrite Hrun in Hrun'. injection Hrun' as <- <-.
  destruct (update_texts_lookup N results 0 (texts st) Hlen) as (texts' & Hupd & _ & Hlook).
  assert (stream_loop N (initial_state N now) (earlier ++ [(t, results)]) =
          (o, inr {| texts := texts'; last_clear_time := last_clear_time st |})) as Hall.
  { rewrite stream_loop_app, Hrun, io_bind_value. cbn [stream_loop].
    rewrite (loop_body_quiet N st t results texts' Hupd Hle).
    rewrite io_bind_value. simpl. by rewrite app_nil_r. }
  exists texts'. split_and!; [done | | done |].
  - intros i. rewrite Hlook. unfold chunk_for.
    rewrite decide_True by lia. by rewrite Nat.sub_0_r.
  - unfold streaming_cell. rewrite decide_True by done.
    rewrite Hall. by rewrite io_bind_value.
Qed.

Lemma final_batch_not_displayed_witness :
  ∃ texts' : list string,
    update_texts 3 0 ["h"]
      (texts {| texts := ["ad"; "be"; "cf"]; last_clear_time := (6 # 10)%Q |}) =
      inr texts' ∧
    (∀ i : nat,
       texts' !! i =
       (λ s, s +:+ default "" (["h"] !! i)) <$>
       texts {| texts := ["ad"; "be"; "cf"]; last_clear_time := (6 # 10)%Q |} !! i) ∧
    stream_loop 3 (initial_state 3 0) example_stream =
      (redraw ["ad"; "be"; "cf"],
       inr {| texts := texts'; last_clear_time := (6 # 10)%Q |}) ∧
    streaming_cell OpenAI 3 0 example_stream None =
      (redraw ["ad"; "be"; "cf"] ++ [PrintLine separator], inr ()).
Proof.
  apply (final_batch_not_displayed 3 0
           [((3 # 10)%Q, ["a"; "b"; "c"]); ((6 # 10)%Q, ["d"; "e"; "f"; "g"])]
           (redraw ["ad"; "be"; "cf"])
           {| texts := ["ad"; "be"; "cf"]; last_clear_time := (6 # 10)%Q |}
           (9 # 10)%Q ["h"]).
  - vm_compute. reflexivity.
  - vm_compute. discriminate.
Defined.

(** The run of [example_stream] shows ["ad"], ["be"], ["cf"] and ends with
    ["adh"] in the first slot, which no line of the output carries. *)
Example final_text_never_shown :
  streaming_cell OpenAI 3 0 example_stream None =
    ([ClearOutput; PrintLine "Result 1: ad"; PrintLine "Result 2: be";
      PrintLine "Result 3: cf"; PrintLine separator], inr ()) ∧
  (stream_loop 3 (initial_state 3 0) example_stream).2 =
    inr {| texts := ["adh"; "be"; "cf"]; last_clear_time := (6 # 10)%Q |}.
Proof. split; vm_compute; reflexivity. Qed.

(** ** The streaming cell: how often the screen is redrawn *)


Lemma clear_times_arrivals (N : Z) (stream : list arrival) :
  ∀ st : loop_state,
    length (texts st) = Z.to_nat N →
    (loop_trace N st stream).*1 = stream.*1 ∧
    clear_times (loop_trace N st stream) ⊆ stream.*1.
Proof.
  induction stream as [|[t results] rest IH]; intros st Hlen; [done|].
  rewrite loop_trace_cons.
  destruct (loop_body_cases N st t results Hlen)
    as (texts' & _ & Hl & _ & [[_ Hrun]|[_ Hrun]]); rewrite Hrun; cbn [fst snd].
  all: match goal with |- context [loop_trace _ ?s _] =>
         destruct (IH s Hl) as [Htimes Hsub] end.
  all: rewrite !fmap_cons; cbn [fst]; split; [by rewrite Htimes|].
  - rewrite clear_times_cleared by apply redraw_clears.
    intros c [->|Hc]%elem_of_cons; [left | right; by apply Hsub].
  - rewrite clear_times_silent.
    intros c Hc. right. by apply Hsub.
Qed.

(** ** The request settings *)

Lemma stored_keywords_absent (name : string) (keywords : list (string * value)) :
  ∀ s : gmap string value,
    name ∉ keywords.*1 →
    foldl store_keyword s keywords !! name = s !! name.
Proof.
  induction keywords as [|[k v] rest IH]; intros s Hnot; simpl; [done|].
  rewrite fmap_cons in Hnot. apply not_elem_of_cons in Hnot as [Hne Hrest].
  rewrite (IH _ Hrest). unfold store_keyword. simpl.
  by rewrite lookup_insert_ne.
Qed.

Lemma stored_keywords_given (name : string) (v : value)
    (keywords : list (string * value)) :
  ∀ s : gmap string value,
    NoDup keywords.*1 →
    (name, v) ∈ keywords →
    foldl store_keyword s keywords !! name = Some v.
Proof.
  induction keywords as [|[k w] rest IH]; intros s Hnodup Hin; simpl.
  - by apply not_elem_of_nil in Hin.
  - rewrite fmap_cons in Hnodup. apply NoDup_cons in Hnodup as [Hfresh Hnodup].
    apply elem_of_cons in Hin as [Heq|Hin].
    + injection Heq as -> ->.
      rewrite (stored_keywords_absent _ _ _ Hfresh).
      unfold store_keyword. simpl. by rewrite lookup_insert_eq.
    + by apply IH.
Qed.

(** C6.  A settings object built from keyword values stores exactly those
    values: every keyword given reads back as the value given for it, and a
    name that was not given reads back as nothing.  The settings of the text
    cells, built with [number_of_responses] 3, [max_tokens] 80,
    [temperature] 0.7, [top_p] 1 and both penalties 0.5, read back
    [number_of_responses] as 3. *)
Theorem settings_store_keywords (keywords : list (string * value)) :
  NoDup keywords.*1 →
  (∀ (name : string) (v : value),
     (name, v) ∈ keywords → getattr (make_settings keywords) name = Some v) ∧
  (∀ name : string,
     name ∉ keywords.*1 → getattr (make_settings keywords) name = None) ∧
  getattr oai_text_request_settings "number_of_responses" = Some (VInt 3).
Proof.
  intros Hnodup. split_and!.
  - intros name v Hin. unfold getattr, make_settings. simpl.
    by apply stored_keywords_given.
  - intros name Hnot. unfold getattr, make_settings. simpl.
    by rewrite stored_keywords_absent.
  - vm_compute. reflexivity.
Qed.

Lemma settings_store_keywords_witness :
  (∀ (name : string) (v : value),
     (name, v) ∈ [("temperature", VFloat (7 # 10)); ("number_of_responses", VInt 3)] →
     getattr (make_settings
                [("temperature", VFloat (7 # 10)); ("number_of_responses", VInt 3)])
       name = Some v) ∧
  (∀ name : string,
     name ∉ [("temperature", VFloat (7 # 10)); ("number_of_responses", VInt 3)].*1 →
     getattr (make_settings
                [("temperature", VFloat (7 # 10)); ("number_of_responses", VInt 3)])
       name = None) ∧
  getattr oai_text_request_settings "number_of_responses" = Some (VInt 3).
Proof.
  apply (settings_store_keywords
           [("temperature", VFloat (7 # 10)); ("number_of_responses", VInt 3)]).
  apply (bool_decide_unpack _). vm_compute. reflexivity.
Defined.

(** ** The completion cells: labels *)

Section CellLemmas.
Context {R E : Type} (format_R : R → string) (format_E : E → string).

Lemma print_results_lines (results : list R) :
  ∀ i : Z,
    print_results format_R i results =
    (imap (λ k r, PrintLine (result_line (i + Z.of_nat k) (format_R r))) results,
     inr ()).
Proof.
  induction results as [|result rest IH]; intros i; simpl; [done|].
  rewrite IH. unfold emit, mbind, io_bind. simpl.
  rewrite Z.add_0_r. do 2 f_equal.
  apply imap_ext. intros k x _. simpl. do 2 f_equal. lia.
Qed.

Lemma print_first_items_lines (results : list (list E)) :
  ∀ (i : Z) (firsts : list E),
    Forall2 (λ result x, result !! 0%nat = Some x) results firsts →
    print_first_items format_E i results =
    (imap (λ k x, PrintLine (result_line (i + Z.of_nat k) (format_E x))) firsts,
     inr ()).
Proof.
  induction results as [|result rest IH]; intros i firsts Hfirsts.
  - by apply Forall2_nil_inv_l in Hfirsts as ->.
  - apply Forall2_cons_inv_l in Hfirsts as (x & firsts' & Hx & Hrest & ->).
    destruct result as [|y items]; [done|]. injection Hx as ->.
    simpl. rewrite (IH _ _ Hrest). unfold lift, emit, mbind, io_bind. simpl.
    rewrite Z.add_0_r. do 2 f_equal.
    apply imap_ext. intros k z _. simpl. do 2 f_equal. lia.
Qed.

End CellLemmas.

(** C10.  For a returned sequence of [n] results, a text-completion cell with
    a print loop prints the lines labelled "Result 1" to "Result n", each
    with its whole result, and a chat-completion cell prints the lines
    labelled "Result 0" to "Result n-1", each with the first element
    [result[0]] of its result only: the [k]-th line is labelled [k + 1] by the
    text cells and [k] by the chat cells. *)
Theorem result_labels {R E : Type} (format_R : R → string) (format_E : E → string)
    (service : Service) (results : list R)
    (chats : list (list E)) (firsts : list E) :
  Forall2 (λ result x, result !! 0%nat = Some x) chats firsts →
  text_completion_cell format_R service service (inr results) =
    (imap (λ k r, PrintLine (result_line (Z.of_nat k + 1) (format_R r))) results,
     inr ()) ∧
  chat_completion_cell format_E service service (inr chats) =
    (imap (λ k x, PrintLine (result_line (Z.of_nat k) (format_E x))) firsts,
     inr ()).
Proof.
  intros Hfirsts. split.
  - unfold text_completion_cell. rewrite decide_True by done.
    unfold lift. rewrite io_bind_value, print_results_lines. simpl.
    f_equal. apply imap_ext. intros k r _. simpl. do 2 f_equal. lia.
  - unfold chat_completion_cell. rewrite decide_True by done.
    unfold lift. rewrite io_bind_value.
    by rewrite (print_first_items_lines format_E chats 0 firsts Hfirsts).
Qed.

Lemma result_labels_witness :
  text_completion_cell (λ s : string, s) AzureOpenAI AzureOpenAI
    (inr ["one"; "two"; "three"]) =
    ([PrintLine "Result 1: one"; PrintLine "Result 2: two";
      PrintLine "Result 3: three"], inr ()) ∧
  chat_completion_cell (λ s : string, s) AzureOpenAI AzureOpenAI
    (inr [["one"; "x"]; ["two"]; ["three"; "y"; "z"]]) =
    ([PrintLine "Result 0: one"; PrintLine "Result 1: two";
      PrintLine "Result 2: three"], inr ()).
Proof.
  apply (result_labels (λ s : string, s) (λ s : string, s) AzureOpenAI
           ["one"; "two"; "three"]
           [["one"; "x"]; ["two"]; ["three"; "y"; "z"]]
           ["one"; "two"; "three"]).
  repeat constructor.
Defined.

(** ** The cells: exceptions *)



(** ** The accumulator in closed form *)

Lemma snapshot_length (N : Z) (stream : list arrival) :
  length (snapshot N stream) = Z.to_nat N.
Proof. unfold snapshot. by rewrite length_fmap, length_seq. Qed.

Lemma snapshot_lookup (N : Z) (stream : list arrival) (i : nat) :
  (i < Z.to_nat N)%nat → snapshot N stream !! i = Some (slot_text i stream).
Proof.
  intros Hi. unfold snapshot. rewrite list_lookup_fmap.
  by rewrite lookup_seq_lt.
Qed.

Lemma slot_text_app (i : nat) (s1 s2 : list arrival) :
  slot_text i (s1 ++ s2) = slot_text i s1 +:+ slot_text i s2.
Proof. unfold slot_text. by rewrite omap_app, join_app. Qed.

(** After the batches of [stream] the accumulator is the snapshot of
    [stream]. *)
Lemma stream_loop_snapshot (N : Z) (now : Q) (stream : list arrival)
    (o : list out_event) (st : loop_state) :
  stream_loop N (initial_state N now) stream = (o, inr st) →
  texts st = snapshot N stream.
Proof.
  intros Hrun.
  destruct (stream_loop_total N stream _ (initial_state_length N now))
    as (o' & st' & Hrun' & Hlen & Hlook).
  rewrite Hrun in Hrun'. injection Hrun' as <- <-.
  apply list_eq. intros i. rewrite Hlook. simpl.
  destruct (decide (i < Z.to_nat N)%nat) as [Hi|Hi].
  - rewrite lookup_replicate_2 by done. by rewrite snapshot_lookup.
  - rewrite (lookup_ge_None_2 (replicate _ _)) by (rewrite length_replicate; lia).
    by rewrite (lookup_ge_None_2 (snapshot _ _)) by (rewrite snapshot_length; lia).
Qed.


(** ** The streaming cell: when the screen is redrawn *)





(** ** The cells: requests and the statements after them *)



(** ** The streaming cell: what a run displays *)

Lemma stream_loop_silent (N : Z) (now : Q) (stream : list arrival) :
  ∀ st : loop_state,
    length (texts st) = Z.to_nat N →
    last_clear_time st = now →
    Forall (λ a : arrival, (a.1 - now <= 1 # 2)%Q) stream →
    ∃ st' : loop_state,
      stream_loop N st stream = ([], inr st') ∧ last_clear_time st' = now.
Proof.
  induction stream as [|[t results] rest IH]; intros st Hlen Hlast Hall.
  - by exists st.
  - apply Forall_cons in Hall as [Ht Hrest]. simpl in Ht.
    destruct (update_texts_lookup N results 0 (texts st) Hlen)
      as (texts' & Hupd & Hl & _).
    rewrite <- Hlast in Ht.
    destruct (IH {| texts := texts'; last_clear_time := last_clear_time st |})
      as (st' & Hrun & Hlast'); [simpl; congruence | done | done |].
    exists st'. split; [|by rewrite Hlast'].
    cbn [stream_loop]. rewrite (loop_body_quiet N st t results texts' Hupd Ht).
    by rewrite io_bind_value, Hrun.
Qed.

(** X1.  A stream whose batches all arrive within 0.5 seconds of the start
    of the loop is never displayed: the loop accumulates every chunk and
    prints nothing, and the cell shows the separator line alone.  The empty
    stream is the least case. *)
Theorem prompt_stream_never_displayed (N : Z) (now : Q) (stream : list arrival) :
  Forall (λ a : arrival, (a.1 - now <= 1 # 2)%Q) stream →
  streaming_cell OpenAI N now stream None = ([PrintLine separator], inr ()) ∧
  ∃ st : loop_state,
    stream_loop N (initial_state N now) stream = ([], inr st) ∧
    texts st = snapshot N stream.
Proof.
  intros Hall.
  destruct (stream_loop_silent N now stream (initial_state N now))
    as (st & Hrun & _); [apply initial_state_length | done | done |].
  split.
  - unfold streaming_cell. rewrite decide_True by done.
    by rewrite Hrun, io_bind_value.
  - exists st. split; [done|]. by apply (stream_loop_snapshot N now stream []).
Qed.

Lemma prompt_stream_never_displayed_witness :
  streaming_cell OpenAI 3 0 [((3 # 10)%Q, ["a"; "b"; "c"]); ((1 # 2)%Q, ["d"])] None =
    ([PrintLine separator], inr ()) ∧
  ∃ st : loop_state,
    stream_loop 3 (initial_state 3 0)
      [((3 # 10)%Q, ["a"; "b"; "c"]); ((1 # 2)%Q, ["d"])] = ([], inr st) ∧
    texts st = snapshot 3 [((3 # 10)%Q, ["a"; "b"; "c"]); ((1 # 2)%Q, ["d"])].
Proof.
  apply (prompt_stream_never_displayed 3 0
           [((3 # 10)%Q, ["a"; "b"; "c"]); ((1 # 2)%Q, ["d"])]).
  repeat constructor; vm_compute; discriminate.
Defined.






(** On three batches with clears at the first and the third, the second
    frame shows the chunk of the second batch too. *)
Example frames_show_all_received :
  shown_frames 1 0 [] [((6 # 10)%Q, ["a"]); ((7 # 10)%Q, ["b"]); ((12 # 10)%Q, ["c"])] =
    [["a"]; ["abc"]] ∧
  output (stream_loop 1 (initial_state 1 0)
            [((6 # 10)%Q, ["a"]); ((7 # 10)%Q, ["b"]); ((12 # 10)%Q, ["c"])]) =
    [ClearOutput; PrintLine "Result 1: a"; ClearOutput; PrintLine "Result 1: abc"].
Proof. split; vm_compute; reflexivity. Qed.

(** X4.  An exception of the stream costs the separator line and nothing
    else: the cell lets the exception escape after the same frames that it
    prints, before the separator, when the stream ends normally. *)
Theorem stream_failure_keeps_frames (N : Z) (now : Q) (stream : list arrival)
    (e : exn) :
  streaming_cell OpenAI N now stream None =
    (output (stream_loop N (initial_state N now) stream) ++ [PrintLine separator],
     inr ()) ∧
  streaming_cell OpenAI N now stream (Some e) =
    (output (stream_loop N (initial_state N now) stream), inl e).
Proof.
  destruct (stream_loop_total N stream _ (initial_state_length N now))
    as (o & st & Hrun & _).
  unfold streaming_cell. rewrite !decide_True by done.
  rewrite Hrun, !io_bind_value. unfold output. simpl.
  by rewrite app_nil_r.
Qed.

(** X5.  Consuming a stream in two parts is consuming it in one go: the loop
    over [s1 ++ s2] prints what the loop over [s1] prints and then what the
    loop over [s2] prints when started in the state that [s1] left, and ends
    in the state of that second loop, whose accumulator is the snapshot of
    the whole stream. *)
Theorem stream_loop_resumes (N : Z) (now : Q) (s1 s2 : list arrival) :
  ∃ (o1 o2 : list out_event) (st1 st2 : loop_state),
    stream_loop N (initial_state N now) s1 = (o1, inr st1) ∧
    stream_loop N st1 s2 = (o2, inr st2) ∧
    stream_loop N (initial_state N now) (s1 ++ s2) = (o1 ++ o2, inr st2) ∧
    texts st1 = snapshot N s1 ∧
    texts st2 = snapshot N (s1 ++ s2) ∧
    ∀ i : nat, slot_text i (s1 ++ s2) = slot_text i s1 +:+ slot_text i s2.
Proof.
  destruct (stream_loop_total N s1 _ (initial_state_length N now))
    as (o1 & st1 & Hrun1 & Hlen1 & _).
  destruct (stream_loop_total N s2 st1 Hlen1) as (o2 & st2 & Hrun2 & _).
  assert (stream_loop N (initial_state N now) (s1 ++ s2) = (o1 ++ o2, inr st2))
    as Hall.
  { by rewrite stream_loop_app, Hrun1, io_bind_value, Hrun2. }
  exists o1, o2, st1, st2. split_and!; [done | done | done | | |].
  - by apply (stream_loop_snapshot N now s1 o1).
  - by apply (stream_loop_snapshot N now (s1 ++ s2) (o1 ++ o2)).
  - intros i. apply slot_text_app.
Qed.

(** ** The streaming cell: how many redraws *)

Lemma spaced_last_bound (clears : list Q) :
  ∀ (since c : Q),
    spaced since clears →
    last clears = Some c →
    (Z.of_nat (length clears) # 2 < c - since)%Q.
Proof.
  induction clears as [|c1 rest IH]; intros since c Hsp Hlast; [done|].
  destruct Hsp as [Hfirst Hrest]. unfold clear_interval in Hfirst.
  destruct rest as [|c2 rest'].
  - injection Hlast as <-. exact Hfirst.
  - rewrite last_cons in Hlast.
    assert (last (c2 :: rest') = Some c) as Hlast'.
    { assert (is_Some (last (c2 :: rest'))) as [y Hy].
      { rewrite last_cons. destruct (last rest'); eauto. }
      rewrite Hy in Hlast. by injection Hlast as ->. }
    pose proof (IH c1 c Hrest Hlast') as Hbound.
    assert ((Z.of_nat (length (c1 :: c2 :: rest')) # 2) ==
            (Z.of_nat (length (c2 :: rest')) # 2) + (1 # 2))%Q as ->.
    { unfold Qeq. simpl. lia. }
    lra.
Qed.

Lemma clear_times_length (trace : list (Q * list out_event)) :
  (length (clear_times trace) ≤ length trace)%nat.
Proof. unfold clear_times. rewrite length_fmap. apply length_filter. Qed.

(** X6.  The loop redraws at most once per batch and at most twice per
    second: there are no more clears than batches, successive clears have
    strictly increasing clock readings, and when the last of [n] clears is
    made, more than [n] times 0.5 seconds have passed since the loop
    started. *)
Theorem redraw_count_bounds (N : Z) (now : Q) (stream : list arrival) :
  (length (clear_times (loop_trace N (initial_state N now) stream)) ≤
   length stream)%nat ∧
  (∀ c : Q,
     last (clear_times (loop_trace N (initial_state N now) stream)) = Some c →
     (Z.of_nat (length (clear_times (loop_trace N (initial_state N now) stream))) # 2
      < c - now)%Q) ∧
  (∀ (k : nat) (c1 c2 : Q),
     clear_times (loop_trace N (initial_state N now) stream) !! k = Some c1 →
     clear_times (loop_trace N (initial_state N now) stream) !! S k = Some c2 →
     (c1 + (1 # 2) < c2)%Q).
Proof.
  pose proof (initial_state_length N now) as Hinit.
  pose proof (loop_trace_spaced N stream _ Hinit) as Hsp. simpl in Hsp.
  split_and!.
  - etrans; [apply clear_times_length|].
    destruct (clear_times_arrivals N stream _ Hinit) as [Htimes _].
    apply (f_equal length) in Htimes. rewrite !length_fmap in Htimes.
    apply Nat.eq_le_incl. exact Htimes.
  - intros c Hlast. by apply spaced_last_bound.
  - revert Hsp. generalize (clear_times (loop_trace N (initial_state N now) stream)).
    generalize now. intros since clears. revert since.
    induction clears as [|c rest IH]; intros since Hsp k c1 c2 H1 H2; [done|].
    destruct Hsp as [_ Hrest]. destruct k as [|k].
    + simpl in H1. injection H1 as ->.
      destruct rest as [|c' rest']; [done|]. simpl in H2. injection H2 as ->.
      destruct Hrest as [Hgap _]. unfold clear_interval in Hgap. lra.
    + by apply (IH c Hrest k).
Qed.

(** ** The streaming cell: when every batch is shown *)

Lemma stream_loop_all_cleared (N : Z) (stream : list arrival) :
  ∀ st : loop_state,
    length (texts st) = Z.to_nat N →
    spaced (last_clear_time st) stream.*1 →
    clear_times (loop_trace N st stream) = stream.*1.
Proof.
  induction stream as [|[t results] rest IH]; intros st Hlen Hsp; [done|].
  rewrite fmap_cons in Hsp. destruct Hsp as [Hlt Hrest]. simpl in Hlt, Hrest.
  destruct (update_texts_lookup N results 0 (texts st) Hlen)
    as (texts' & Hupd & Hl & _).
  rewrite loop_trace_cons, (loop_body_redraw N st t results texts' Hupd Hlt).
  cbn [fst snd]. rewrite clear_times_cleared by apply redraw_clears.
  rewrite fmap_cons. simpl. f_equal.
  apply (IH {| texts := texts'; last_clear_time := t |}); [simpl; congruence | done].
Qed.

(** X7.  Every batch is displayed on arrival exactly when the arrivals are
    more than 0.5 seconds apart, the first one counted from the start of the
    loop: then and only then the clears are the arrivals. *)
Theorem every_batch_shown_iff_spaced (N : Z) (now : Q) (stream : list arrival) :
  clear_times (loop_trace N (initial_state N now) stream) = stream.*1 ↔
  spaced now stream.*1.
Proof.
  pose proof (initial_state_length N now) as Hinit. split.
  - intros <-. apply (loop_trace_spaced N stream _ Hinit).
  - intros Hsp. by apply (stream_loop_all_cleared N stream (initial_state N now)).
Qed.

(** ** The streaming cell: no response slots *)

Lemma stream_loop_no_slots (N : Z) (stream : list arrival) :
  ∀ st : loop_state,
    texts st = [] →
    N ≤ 0 →
    ∃ (o : list out_event) (st' : loop_state),
      stream_loop N st stream = (o, inr st') ∧
      texts st' = [] ∧
      Forall (λ ev, ev = ClearOutput) o.
Proof.
  induction stream as [|[t results] rest IH]; intros st Hempty HN.
  - exists [], st. by split_and!.
  - assert (length (texts st) = Z.to_nat N) as Hlen by (rewrite Hempty; simpl; lia).
    destruct (loop_body_cases N st t results Hlen)
      as (texts' & _ & Hl & _ & Hcases).
    assert (texts' = []) as -> by (apply nil_length_inv; lia).
    destruct Hcases as [[_ Hbody]|[_ Hbody]].
    all: match goal with H : loop_body _ _ _ _ = (_, inr ?s) |- _ =>
           destruct (IH s eq_refl HN) as (o & st' & Hrun & Hnil & Hall) end.
    all: cbn [stream_loop]; rewrite Hbody, io_bind_value, Hrun; simpl.
    all: eexists _, st'; split_and!; [done | done |].
    + by constructor.
    + done.
Qed.

(** X8.  With [number_of_responses] zero or negative there is no slot: the
    accumulator stays the empty list, every chunk of every batch is dropped,
    and all the loop ever prints is clears. *)
Theorem no_slots_only_clears (N : Z) (now : Q) (stream : list arrival) :
  N ≤ 0 →
  ∃ (o : list out_event) (st : loop_state),
    stream_loop N (initial_state N now) stream = (o, inr st) ∧
    texts st = [] ∧
    Forall (λ ev, ev = ClearOutput) o.
Proof.
  intros HN. apply stream_loop_no_slots; [|done].
  simpl. by replace (Z.to_nat N) with 0%nat by lia.
Qed.

Lemma no_slots_only_clears_witness :
  ∃ (o : list out_event) (st : loop_state),
    stream_loop 0 (initial_state 0 0) sparse_stream = (o, inr st) ∧
    texts st = [] ∧
    Forall (λ ev, ev = ClearOutput) o.
Proof. apply (no_slots_only_clears 0 0 sparse_stream). lia. Defined.

(** ** The completion cells: an empty chat result *)

Lemma print_first_items_stops {E : Type} (format_E : E → string)
    (before : list (list E)) :
  ∀ (i : Z) (firsts : list E) (after : list (list E)),
    Forall2 (λ result x, result !! 0%nat = Some x) before firsts →
    print_first_items format_E i (before ++ [] :: after) =
    (imap (λ k x, PrintLine (result_line (i + Z.of_nat k) (format_E x))) firsts,
     inl IndexError).
Proof.
  induction before as [|result rest IH]; intros i firsts after Hfirsts.
  - by apply Forall2_nil_inv_l in Hfirsts as ->.
  - apply Forall2_cons_inv_l in Hfirsts as (x & firsts' & Hx & Hrest & ->).
    destruct result as [|y items]; [done|]. injection Hx as ->.
    simpl. rewrite (IH _ _ _ Hrest). unfold lift, emit, mbind, io_bind. simpl.
    rewrite Z.add_0_r. do 2 f_equal.
    apply imap_ext. intros k z _. simpl. do 2 f_equal. lia.
Qed.

(** X9.  A chat cell stops at the first empty result: it prints the lines of
    the results before it, labelled from 0, raises [IndexError] from
    [result[0]], and prints nothing for the results after it. *)
Theorem chat_cell_stops_at_empty_result {E : Type} (format_E : E → string)
    (service : Service) (before after : list (list E)) (firsts : list E) :
  Forall2 (λ result x, result !! 0%nat = Some x) before firsts →
  chat_completion_cell format_E service service (inr (before ++ [] :: after)) =
  (imap (λ k x, PrintLine (result_line (Z.of_nat k) (format_E x))) firsts,
   inl IndexError).
Proof.
  intros Hfirsts. unfold chat_completion_cell. rewrite decide_True by done.
  unfold lift. rewrite io_bind_value.
  by rewrite (print_first_items_stops format_E before 0 firsts after Hfirsts).
Qed.

Lemma chat_cell_stops_at_empty_result_witness :
  chat_completion_cell (λ s : string, s) AzureOpenAI AzureOpenAI
    (inr ([["one"; "x"]; ["two"]] ++ [] :: [["three"]])) =
  ([PrintLine "Result 0: one"; PrintLine "Result 1: two"], inl IndexError).
Proof.
  apply (chat_cell_stops_at_empty_result (λ s : string, s) AzureOpenAI
           [["one"; "x"]; ["two"]] [["three"]] ["one"; "two"]).
  repeat constructor.
Defined.

(** ** The cells: runs that leave no trace *)

(** X10.  A cell prints nothing and raises nothing only in these cases: the
    streaming cell when the selected service is not OpenAI (selected, it
    prints at least the separator or raises); the Hugging Face cell when the
    selected service is not Hugging Face; a text or chat completion cell when
    its service is not the selected one or the call returned no result. *)
Theorem cell_silent_iff {R E : Type} (format_R : R → string)
    (format_E : E → string) (service selectedService : Service) :
  (∀ (N : Z) (now : Q) (stream : list arrival) (stream_end : option exn),
     streaming_cell selectedService N now stream stream_end = ([], inr ()) ↔
     selectedService ≠ OpenAI) ∧
  (∀ call : exn + list string,
     hugging_face_cell selectedService call = ([], inr ()) ↔
     selectedService ≠ HuggingFace) ∧
  (∀ call : exn + list R,
     text_completion_cell format_R service selectedService call = ([], inr ()) ↔
     selectedService ≠ service ∨ call = inr []) ∧
  (∀ call : exn + list (list E),
     chat_completion_cell format_E service selectedService call = ([], inr ()) ↔
     selectedService ≠ service ∨ call = inr []).
Proof.
  split_and!.
  - intros N now stream stream_end. unfold streaming_cell.
    destruct (decide (selectedService = OpenAI)) as [->|Hne]; [|done].
    destruct (stream_loop_total N stream _ (initial_state_length N now))
      as (o & st & Hrun & _).
    rewrite Hrun, io_bind_value. split; [|done].
    destruct stream_end; simpl; [done|].
    intros [= Ho]. by destruct o.
  - intros call. unfold hugging_face_cell.
    destruct (decide (selectedService = HuggingFace)) as [->|Hne]; [|done].
    split; [|done]. by destruct call.
  - intros call. unfold text_completion_cell.
    destruct (decide (selectedService = service)) as [->|Hne]; [|by split; [left|]].
    destruct call as [e|[|r results]]; split; try done.
    + by intros [|].
    + by right.
    + by intros [|].
  - intros call. unfold chat_completion_cell.
    destruct (decide (selectedService = service)) as [->|Hne]; [|by split; [left|]].
    destruct call as [e|[|r results]]; split; try done.
    + by intros [|].
    + by right.
    + destruct r as [|x items]; [done|]. simpl.
      unfold lift, emit, mbind, io_bind. simpl. done.
    + by intros [|].
Qed.

(** ** The names of the notebook *)

(** X11.  Run in order from an empty set of names, with OpenAI or Azure
    OpenAI selected no cell of the notebook reads a name that is not bound.
    With Hugging Face selected the three settings cells that stand outside
    any [if] raise [NameError], each for its settings class, which the import
    cell binds for OpenAI and Azure OpenAI only; the other cells run. *)
Theorem name_errors_by_service (selectedService : Service) :
  run_cells (notebook_cells selectedService) ∅ =
  if decide (selectedService = HuggingFace) then
    [None; None; None; Some "OpenAITextRequestSettings"; None; None; None; None;
     Some "OpenAIChatRequestSettings"; None; Some "AzureChatRequestSettings";
     None; None]
  else replicate 13 None.
Proof. destruct selectedService; vm_compute; reflexivity. Qed.
